(** * Client-side authentication: session store, HTTP gateway, auth hooks

    A shallow embedding of
      - the Zustand auth store          (store/auth.store.ts),
      - the Axios instance              (src/lib/api/client.ts),
      - the TanStack mutation hooks     (src/hooks/useAuth.ts),
    together with the parts of the platform they talk to: [localStorage],
    [window.location], the query cache and the JSON text written by the
    store's [persist] middleware.

    JavaScript strings are modelled by [string]; [null] by [None]. *)

From Stdlib Require Import Strings.String Strings.Ascii.
From stdpp Require Import base option strings pretty gmap fin_maps.

Local Open Scope string_scope.

(** ** Shared types (types/index.ts) *)

Record User := {
  id : string;
  email : string;
  name : string;
  createdAt : option string;
  updatedAt : option string;
}.

Record AuthResponse := {
  ar_user : User;
  ar_token : string;
}.

Record LoginCredentials := {
  lc_email : string;
  lc_password : string;
}.

Record SignupData := {
  sd_name : string;
  sd_email : string;
  sd_password : string;
}.

(** ** Session state (store/auth.store.ts)

    The data fields of [AuthState]; the two actions are the functions
    [setAuth] and [logout] further down. *)

Record AuthState := {
  user : option User;
  token : option string;
  isAuthenticated : bool;
}.

(** The object [partialize] builds, which is what reaches durable storage. *)
Record Persisted := {
  p_user : option User;
  p_token : option string;
  p_isAuthenticated : bool;
}.

(** ** JSON text

    The [persist] middleware stores [JSON.stringify({state, version})].
    [JSON] gives that text for the shape [partialize] produces, and reads
    it back. *)

Module JSON.

Definition dquote : ascii := "034"%char.
Definition backslash : ascii := "092"%char.

Definition hexdigit (n : nat) : ascii :=
  match n with
  | 0 => "0" | 1 => "1" | 2 => "2" | 3 => "3" | 4 => "4" | 5 => "5"
  | 6 => "6" | 7 => "7" | 8 => "8" | 9 => "9" | 10 => "a" | 11 => "b"
  | 12 => "c" | 13 => "d" | 14 => "e" | _ => "f"
  end%char.

(** QuoteJSONString, one code unit: the two-character escapes, [\u00xx]
    for the other control characters, the character itself otherwise. *)
Definition escape_char (c : ascii) (k : string) : string :=
  let n := nat_of_ascii c in
  if Nat.eqb n 8 then String backslash (String "b" k)
  else if Nat.eqb n 9 then String backslash (String "t" k)
  else if Nat.eqb n 10 then String backslash (String "n" k)
  else if Nat.eqb n 12 then String backslash (String "f" k)
  else if Nat.eqb n 13 then String backslash (String "r" k)
  else if Nat.eqb n 34 then String backslash (String dquote k)
  else if Nat.eqb n 92 then String backslash (String backslash k)
  else if Nat.ltb n 32 then
    String backslash (String "u" (String "0" (String "0"
      (String (hexdigit (n / 16)) (String (hexdigit (n mod 16)) k)))))
  else String c k.

Fixpoint escape (s : string) (k : string) : string :=
  match s with
  | EmptyString => k
  | String c r => escape_char c (escape r k)
  end.

(** Every writer takes the text that follows, so that the output is one
    right-nested string. *)
Definition quote (s : string) (k : string) : string :=
  String dquote (escape s (String dquote k)).

Definition key (n : string) (k : string) : string :=
  quote n (String ":" k).

Definition nullable (o : option string) (k : string) : string :=
  match o with
  | None => "null" +:+ k
  | Some s => quote s k
  end.

Definition optional_field (n : string) (o : option string) (k : string) : string :=
  match o with
  | None => k
  | Some s => String "," (key n (quote s k))
  end.

Definition write_user (u : User) (k : string) : string :=
  String "{" (key "id" (quote (id u)
    (String "," (key "email" (quote (email u)
    (String "," (key "name" (quote (name u)
    (optional_field "createdAt" (createdAt u)
    (optional_field "updatedAt" (updatedAt u)
    (String "}" k))))))))))).

Definition write_bool (b : bool) (k : string) : string :=
  (if b then "true" else "false") +:+ k.

Definition nullable_user (o : option User) (k : string) : string :=
  match o with
  | None => "null" +:+ k
  | Some u => write_user u k
  end.

(** [{state: partialize(state), version: 0}]: the store sets no
    [version] option, so the middleware writes its default, 0. *)
Definition write_doc (p : Persisted) (k : string) : string :=
  String "{" (key "state"
    (String "{" (key "user" (nullable_user (p_user p)
    (String "," (key "token" (nullable (p_token p)
    (String "," (key "isAuthenticated" (write_bool (p_isAuthenticated p)
    (String "}" (String "," (key "version" (String "0"
    (String "}" k))))))))))))))).

Definition stringify (p : Persisted) : string := write_doc p EmptyString.

(** *** Reading

    The reader accepts the documents [stringify] writes: fixed key order,
    no white space, version 0. Anything else under the key is reported as
    unreadable, and the store then keeps its initial state. *)

Definition hexval (c : ascii) : option nat :=
  let n := nat_of_ascii c in
  if Nat.leb 48 n && Nat.leb n 57 then Some (n - 48)
  else if Nat.leb 97 n && Nat.leb n 102 then Some (n - 87)
  else if Nat.leb 65 n && Nat.leb n 70 then Some (n - 55)
  else None.

(** [\uXXXX]; a code unit above 255 has no counterpart in [ascii]. *)
Definition hex4 (h1 h2 h3 h4 : ascii) : option ascii :=
  a ← hexval h1; b ← hexval h2; c ← hexval h3; d ← hexval h4;
  let n := ((a * 16 + b) * 16 + c) * 16 + d in
  if Nat.ltb n 256 then Some (ascii_of_nat n) else None.

Definition simple_escape (e : ascii) : option ascii :=
  if Ascii.eqb e dquote then Some dquote
  else if Ascii.eqb e backslash then Some backslash
  else if Ascii.eqb e "/" then Some "/"%char
  else if Ascii.eqb e "b" then Some "008"%char
  else if Ascii.eqb e "f" then Some "012"%char
  else if Ascii.eqb e "n" then Some "010"%char
  else if Ascii.eqb e "r" then Some "013"%char
  else if Ascii.eqb e "t" then Some "009"%char
  else None.

Definition push (c : ascii) (o : option (string * string)) : option (string * string) :=
  match o with
  | Some (s, r) => Some (String c s, r)
  | None => None
  end.

(** The characters of a string literal after its opening quote, up to
    and including the closing quote; returns the value and the rest. *)
Fixpoint unescape (s : string) : option (string * string) :=
  match s with
  | EmptyString => None
  | String c r =>
      if Ascii.eqb c dquote then Some (EmptyString, r)
      else if Ascii.eqb c backslash then
        match r with
        | EmptyString => None
        | String e r1 =>
            if Ascii.eqb e "u" then
              match r1 with
              | String h1 (String h2 (String h3 (String h4 r2))) =>
                  match hex4 h1 h2 h3 h4 with
                  | Some c' => push c' (unescape r2)
                  | None => None
                  end
              | _ => None
              end
            else
              match simple_escape e with
              | Some c' => push c' (unescape r1)
              | None => None
              end
        end
      else if Nat.ltb (nat_of_ascii c) 32 then None
      else push c (unescape r)
  end.

Definition Parser (A : Type) : Type := string → option (A * string).

Fixpoint lit (p s : string) : option string :=
  match p with
  | EmptyString => Some s
  | String a p' =>
      match s with
      | String b s' => if Ascii.eqb a b then lit p' s' else None
      | EmptyString => None
      end
  end.

Definition parse_quoted : Parser string := λ s,
  match s with
  | String c r => if Ascii.eqb c dquote then unescape r else None
  | EmptyString => None
  end.

Definition expect_key (n : string) (s : string) : option string :=
  '(n', r) ← parse_quoted s;
  if String.eqb n' n then lit ":" r else None.

Definition parse_nullable : Parser (option string) := λ s,
  match lit "null" s with
  | Some r => Some (None, r)
  | None => '(t, r) ← parse_quoted s; Some (Some t, r)
  end.

Definition parse_optional_field (n : string) : Parser (option string) := λ s,
  match (r ← lit "," s; r1 ← expect_key n r; parse_quoted r1) with
  | Some (t, r2) => Some (Some t, r2)
  | None => Some (None, s)
  end.

Definition parse_user : Parser User := λ s,
  r ← lit "{" s;
  r ← expect_key "id" r; '(i, r) ← parse_quoted r;
  r ← lit "," r;
  r ← expect_key "email" r; '(e, r) ← parse_quoted r;
  r ← lit "," r;
  r ← expect_key "name" r; '(n, r) ← parse_quoted r;
  '(c, r) ← parse_optional_field "createdAt" r;
  '(u, r) ← parse_optional_field "updatedAt" r;
  r ← lit "}" r;
  Some ({| id := i; email := e; name := n; createdAt := c; updatedAt := u |}, r).

Definition parse_nullable_user : Parser (option User) := λ s,
  match lit "null" s with
  | Some r => Some (None, r)
  | None => '(u, r) ← parse_user s; Some (Some u, r)
  end.

Definition parse_bool : Parser bool := λ s,
  match lit "true" s with
  | Some r => Some (true, r)
  | None => r ← lit "false" s; Some (false, r)
  end.

Definition parse_doc : Parser Persisted := λ s,
  r ← lit "{" s; r ← expect_key "state" r;
  r ← lit "{" r;
  r ← expect_key "user" r; '(u, r) ← parse_nullable_user r;
  r ← lit "," r;
  r ← expect_key "token" r; '(t, r) ← parse_nullable r;
  r ← lit "," r;
  r ← expect_key "isAuthenticated" r; '(b, r) ← parse_bool r;
  r ← lit "}" r; r ← lit "," r;
  r ← expect_key "version" r; r ← lit "0" r;
  r ← lit "}" r;
  Some ({| p_user := u; p_token := t; p_isAuthenticated := b |}, r).

Definition parse (s : string) : option Persisted :=
  match parse_doc s with
  | Some (p, EmptyString) => Some p
  | _ => None
  end.

End JSON.

(** ** The platform: durable storage, navigation, the world

    [window] is [None] where [typeof window === "undefined"] (server-side
    rendering); there is then no [localStorage] and no [location]. *)

Record Window := {
  localStorage : gmap string string;
  (** targets assigned to [window.location.href], oldest first *)
  navigations : list string;
}.

Definition getItem (k : string) (win : Window) : option string :=
  localStorage win !! k.

Definition setItem (k v : string) (win : Window) : Window :=
  {| localStorage := <[k := v]> (localStorage win);
     navigations := navigations win |}.

Definition removeItem (k : string) (win : Window) : Window :=
  {| localStorage := delete k (localStorage win);
     navigations := navigations win |}.

Definition assign_location_href (target : string) (win : Window) : Window :=
  {| localStorage := localStorage win;
     navigations := navigations win ++ [target] |}.

Inductive RequestBody :=
| BodyNone
| BodyLogin (credentials : LoginCredentials)
| BodySignup (signupData : SignupData).

Record AxiosRequestConfig := {
  baseURL : string;
  url : string;
  headers : gmap string string;
  body : RequestBody;
}.

Record AxiosResponse (D : Type) := {
  status : nat;
  data : D;
}.
Arguments status {D} _.
Arguments data {D} _.

(** [response] is [error.response?.status]: absent when no response was
    received. *)
Record AxiosError := {
  response : option nat;
  message : string;
  config : AxiosRequestConfig;
}.

Record World := {
  window : option Window;
  (** [process.env.NEXT_PUBLIC_API_URL], validated by env.ts *)
  NEXT_PUBLIC_API_URL : string;
  (** the state held by [useAuthStore] *)
  auth : AuthState;
  (** the entries of the query client's cache, by query key *)
  queries : gmap (list string) string;
  (** how many times [queryClient.clear()] has run *)
  clearCalls : nat;
  (** the requests handed to the transport, oldest first *)
  sent : list AxiosRequestConfig;
}.

Definition with_window (o : option Window) (w : World) : World :=
  {| window := o; NEXT_PUBLIC_API_URL := NEXT_PUBLIC_API_URL w;
     auth := auth w; queries := queries w;
     clearCalls := clearCalls w; sent := sent w |}.

Definition with_auth (st : AuthState) (w : World) : World :=
  {| window := window w; NEXT_PUBLIC_API_URL := NEXT_PUBLIC_API_URL w;
     auth := st; queries := queries w;
     clearCalls := clearCalls w; sent := sent w |}.

Definition record_sent (config : AxiosRequestConfig) (w : World) : World :=
  {| window := window w; NEXT_PUBLIC_API_URL := NEXT_PUBLIC_API_URL w;
     auth := auth w; queries := queries w;
     clearCalls := clearCalls w; sent := sent w ++ [config] |}.

(** [f] applied to the window where there is one. *)
Definition on_window (f : Window → Window) (w : World) : World :=
  with_window (f <$> window w) w.

(** ** Effects

    The code runs on one thread; an operation is a function of the world.
    A settled promise is [Resolved] or [Rejected]. *)

Definition M (A : Type) : Type := World → A * World.

#[global] Instance M_ret : MRet M := λ A a w, (a, w).
#[global] Instance M_bind : MBind M := λ A B f m w,
  let '(a, w') := m w in f a w'.
#[global] Instance M_fmap : FMap M := λ A B f m w,
  let '(a, w') := m w in (f a, w').

Definition modify (f : World → World) : M unit := λ w, (tt, f w).
Definition gets {A} (f : World → A) : M A := λ w, (f w, w).
Definition exec {A} (m : M A) (w : World) : World := (m w).2.
Definition eval {A} (m : M A) (w : World) : A := (m w).1.

Inductive Settled (A : Type) :=
| Resolved (a : A)
| Rejected (e : AxiosError).
Arguments Resolved {A} _.
Arguments Rejected {A} _.

(** ** store/auth.store.ts *)

Definition initialState : AuthState :=
  {| user := None; token := None; isAuthenticated := false |}.

Definition partialize (state : AuthState) : Persisted :=
  {| p_user := user state;
     p_token := token state;
     p_isAuthenticated := isAuthenticated state |}.

(** The [name] option of [persist]. *)
Definition persist_name : string := "auth-storage".

(** The argument of [set]: the keys the object literal lists. *)
Record PartialState := {
  set_user : option (option User);
  set_token : option (option string);
  set_isAuthenticated : option bool;
}.

(** [Object.assign({}, state, partial)] *)
Definition assign (state : AuthState) (partial : PartialState) : AuthState :=
  {| user := default (user state) (set_user partial);
     token := default (token state) (set_token partial);
     isAuthenticated := default (isAuthenticated state) (set_isAuthenticated partial) |}.

(** What [persist] adds to [set]: after the update the partialized state
    goes to [localStorage] under [persist_name]. Without a window the
    middleware has no storage and [set] only updates the state. *)
Definition persist_setItem : M unit :=
  modify (λ w, on_window (setItem persist_name (JSON.stringify (partialize (auth w)))) w).

Definition set (partial : PartialState) : M unit :=
  modify (λ w, with_auth (assign (auth w) partial) w);;
  persist_setItem.

Definition setAuth (user : User) (token : string) : M unit :=
  (* Store token in localStorage for API client *)
  modify (on_window (setItem "auth_token" token));;
  set {| set_user := Some (Some user);
         set_token := Some (Some token);
         set_isAuthenticated := Some true |}.

Definition logout : M unit :=
  (* Clear token from localStorage *)
  modify (on_window (removeItem "auth_token"));;
  set {| set_user := Some None;
         set_token := Some None;
         set_isAuthenticated := Some false |}.

(** [persist]'s default [merge]: [{...currentState, ...persistedState}]. *)
Definition merge (persisted : Persisted) (current : AuthState) : AuthState :=
  {| user := p_user persisted;
     token := p_token persisted;
     isAuthenticated := p_isAuthenticated persisted |}.

(** The state of a store created in this window: the initial state, over
    which [persist] lays the snapshot it finds under [persist_name]. *)
Definition hydrate (o : option Window) : AuthState :=
  match (win ← o; text ← getItem persist_name win; JSON.parse text) with
  | Some persisted => merge persisted initialState
  | None => initialState
  end.

(** Reads of durable storage, [None] where there is none to read: the
    bearer token and the snapshot written by [persist]. *)
Definition durableToken (w : World) : option string :=
  win ← window w; getItem "auth_token" win.

Definition durableSnapshot (w : World) : option string :=
  win ← window w; getItem persist_name win.

(** Whether the world has a window. *)
Definition browser (w : World) : bool := bool_decide (is_Some (window w)).

(** [isAuthenticated] in lockstep with the presence of [user] and [token]. *)
Definition lockstep (st : AuthState) : Prop :=
  (isAuthenticated st = true ↔ is_Some (user st) ∧ is_Some (token st))
  ∧ (is_Some (user st) ↔ is_Some (token st)).

(** A run of store operations, and the session state after each. *)
Inductive StoreOp :=
| OpSetAuth (user : User) (token : string)
| OpLogout.

Definition run_op (op : StoreOp) : M unit :=
  match op with
  | OpSetAuth user token => setAuth user token
  | OpLogout => logout
  end.

Fixpoint trace (ops : list StoreOp) (w : World) : list AuthState :=
  match ops with
  | [] => []
  | op :: ops' =>
      let w' := exec (run_op op) w in
      auth w' :: trace ops' w'
  end.

(** ** src/lib/api/client.ts *)

(** [typeof window !== "undefined"] *)
Definition isBrowser : M bool := gets browser.

(** JavaScript truthiness of a string: every string but the empty one. *)
Definition truthy (s : string) : bool :=
  match s with
  | EmptyString => false
  | String _ _ => true
  end.

Definition set_header (k v : string) (config : AxiosRequestConfig) : AxiosRequestConfig :=
  {| baseURL := baseURL config; url := url config;
     headers := <[k := v]> (headers config); body := body config |}.

(** How the evaluation of a piece of JavaScript completes: with a value,
    or by throwing. *)
Inductive Exception :=
| ReferenceError (message : string).

Inductive Completion (A : Type) :=
| Normal (a : A)
| Throw (e : Exception).
Arguments Normal {A} _.
Arguments Throw {A} _.

(** [localStorage.getItem(k)]. Where there is no window the global
    [localStorage] is not defined, and the reference throws. *)
Definition localStorage_getItem (k : string) : M (Completion (option string)) :=
  gets (λ w, match window w with
             | Some win => Normal (getItem k win)
             | None => Throw (ReferenceError "localStorage is not defined")
             end).

(** Request interceptor - Add auth token from localStorage *)
Definition requestInterceptor (config : AxiosRequestConfig)
  : M (Completion AxiosRequestConfig) :=
  browser ← isBrowser;
  if browser : bool then
    token ← localStorage_getItem "auth_token";
    match token with
    | Normal (Some token) =>
        if truthy token
        then mret (Normal (set_header "Authorization" ("Bearer " +:+ token) config))
        else mret (Normal config)
    | Normal None => mret (Normal config)
    | Throw e => mret (Throw e)
    end
  else mret (Normal config).

(** The configuration the request goes on with after the interceptor.
    The interceptor completes normally in every world (see
    [requestInterceptor_run]), so the second branch is never taken. *)
Definition onRequest (config : AxiosRequestConfig) : M AxiosRequestConfig :=
  completion ← requestInterceptor config;
  match completion with
  | Normal config' => mret config'
  | Throw _ => mret config
  end.

Definition onRequestError {A} (error : AxiosError) : M (Settled A) :=
  mret (Rejected error).

Definition onResponse {D} (response : AxiosResponse D) : AxiosResponse D := response.

(** Response interceptor - Handle 401 Unauthorized *)
Definition onResponseError {A} (error : AxiosError) : M (Settled A) :=
  browser ← isBrowser;
  (if bool_decide (response error = Some 401) && browser then
     (* Clear auth token and redirect to login *)
     modify (on_window (removeItem "auth_token"));;
     modify (on_window (assign_location_href "/login"))
   else mret tt);;
  mret (Rejected error).

(** *** The transport

    What the remote API answers to a request: a response with a status and
    a body, read at the type the call asserts ([api.post<AuthResponse>]),
    or nothing at all (network failure, timeout). *)
Inductive TransportResult (D : Type) :=
| Response (status : nat) (data : D)
| NoResponse (message : string).
Arguments Response {D} _ _.
Arguments NoResponse {D} _.

Definition Remote (D : Type) : Type := AxiosRequestConfig → TransportResult D.

(** Axios's default [validateStatus]. *)
Definition validateStatus (status : nat) : bool :=
  Nat.leb 200 status && Nat.ltb status 300.

(** How Axios settles the promise of a request, by default. *)
Definition settle {D} (remote : Remote D) (config : AxiosRequestConfig)
  : Settled (AxiosResponse D) :=
  match remote config with
  | Response status data =>
      if validateStatus status
      then Resolved {| status := status; data := data |}
      else Rejected {| response := Some status;
                       message := "Request failed with status code " +:+ pretty status;
                       config := config |}
  | NoResponse message =>
      Rejected {| response := None; message := message; config := config |}
  end.

(** Sends the request (recorded in [sent]) and settles. *)
Definition dispatchRequest {D} (remote : Remote D) (config : AxiosRequestConfig)
  : M (Settled (AxiosResponse D)) :=
  modify (record_sent config);;
  mret (settle remote config).

(** The configuration of [api.post(url, body)] before the interceptors:
    the defaults given to [axios.create]. *)
Definition instance_config (url : string) (body : RequestBody) : M AxiosRequestConfig :=
  base ← gets NEXT_PUBLIC_API_URL;
  mret {| baseURL := base; url := url;
          headers := {[ "Content-Type" := "application/json" ]};
          body := body |}.

(** [api.post(url, body)]: the instance defaults, the request interceptor,
    the transport, then the response interceptor's handler for the way the
    promise settled. *)
Definition api_post {D} (remote : Remote D) (url : string) (body : RequestBody)
  : M (Settled (AxiosResponse D)) :=
  config ← instance_config url body;
  config ← onRequest config;
  settled ← dispatchRequest remote config;
  match settled with
  | Resolved response => mret (Resolved (onResponse response))
  | Rejected error => onResponseError error
  end.

(** The request [api.post(url, body)] hands to the transport in world [w]. *)
Definition request_of (url : string) (body : RequestBody) (w : World) : AxiosRequestConfig :=
  eval (config ← instance_config url body; onRequest config) w.

(** ** The query client and mutations (TanStack Query) *)

(** [queryClient.clear()] *)
Definition queryClient_clear : M unit :=
  modify (λ w, {| window := window w; NEXT_PUBLIC_API_URL := NEXT_PUBLIC_API_URL w;
                  auth := auth w; queries := ∅;
                  clearCalls := S (clearCalls w); sent := sent w |}).

Record MutationOptions (V D : Type) := {
  mutationFn : V → M (Settled D);
  onSuccess : option (D → M unit);
  onError : option (AxiosError → M unit);
}.
Arguments mutationFn {V D} _.
Arguments onSuccess {V D} _.
Arguments onError {V D} _.

Definition callback {X} (f : option (X → M unit)) (x : X) : M unit :=
  match f with
  | Some f => f x
  | None => mret tt
  end.

(** [mutate(variables)] on the result of [useMutation(options)]: one run
    of [mutationFn] (no option here sets [retry], and a mutation is not
    retried by default), then the callback for the way it settled. *)
Definition mutate {V D} (options : MutationOptions V D) (variables : V) : M (Settled D) :=
  settled ← mutationFn options variables;
  match settled with
  | Resolved data => callback (onSuccess options) data;; mret (Resolved data)
  | Rejected error => callback (onError options) error;; mret (Rejected error)
  end.

(** ** src/hooks/useAuth.ts *)

(** [const { data } = await api.post(...); return data] *)
Definition returnData {D} (settled : Settled (AxiosResponse D)) : Settled D :=
  match settled with
  | Resolved response => Resolved (data response)
  | Rejected error => Rejected error
  end.

Definition useLogin (remote : Remote AuthResponse)
  : MutationOptions LoginCredentials AuthResponse :=
  {| mutationFn := λ credentials,
       returnData <$> api_post remote "/auth/login" (BodyLogin credentials);
     onSuccess := Some (λ data, setAuth (ar_user data) (ar_token data));
     onError := None |}.

Definition useSignup (remote : Remote AuthResponse)
  : MutationOptions SignupData AuthResponse :=
  {| mutationFn := λ signupData,
       returnData <$> api_post remote "/auth/signup" (BodySignup signupData);
     onSuccess := Some (λ data, setAuth (ar_user data) (ar_token data));
     onError := None |}.

Definition useLogout (remote : Remote unit) : MutationOptions unit unit :=
  {| mutationFn := λ _,
       returnData <$> api_post remote "/auth/logout" BodyNone;
     onSuccess := Some (λ _, logout;; queryClient_clear);
     onError := Some (λ _,
       (* Even if API call fails, clear local state *)
       logout;; queryClient_clear) |}.

(** ** store/ui.store.ts

    A second Zustand store, without [persist]: its state lives in memory
    only, so an action is a function of the state. *)

Module UIStore.

Record UIState := {
  isSidebarOpen : bool;
  isModalOpen : bool;
}.

Record PartialState := {
  set_isSidebarOpen : option bool;
  set_isModalOpen : option bool;
}.

(** [Object.assign({}, state, partial)] *)
Definition assign (state : UIState) (partial : PartialState) : UIState :=
  {| isSidebarOpen := default (isSidebarOpen state) (set_isSidebarOpen partial);
     isModalOpen := default (isModalOpen state) (set_isModalOpen partial) |}.

(** [set] with a function of the current state; an object literal is the
    constant function. *)
Definition set (partial : UIState → PartialState) (state : UIState) : UIState :=
  assign state (partial state).

Definition initialState : UIState :=
  {| isSidebarOpen := false; isModalOpen := false |}.

Definition toggleSidebar : UIState → UIState :=
  set (λ state, {| set_isSidebarOpen := Some (negb (isSidebarOpen state));
                   set_isModalOpen := None |}).

Definition openModal : UIState → UIState :=
  set (λ _, {| set_isSidebarOpen := None; set_isModalOpen := Some true |}).

Definition closeModal : UIState → UIState :=
  set (λ _, {| set_isSidebarOpen := None; set_isModalOpen := Some false |}).

Inductive Action :=
| ToggleSidebar
| OpenModal
| CloseModal.

Definition act (a : Action) : UIState → UIState :=
  match a with
  | ToggleSidebar => toggleSidebar
  | OpenModal => openModal
  | CloseModal => closeModal
  end.

(** The actions of a list, first to last. *)
Definition run (actions : list Action) (state : UIState) : UIState :=
  foldl (λ s a, act a s) state actions.

(** How many times the sidebar is toggled, and what the last modal action
    asks for, if there is one. *)
Fixpoint toggles (actions : list Action) : nat :=
  match actions with
  | [] => 0
  | ToggleSidebar :: rest => S (toggles rest)
  | _ :: rest => toggles rest
  end.

Fixpoint last_modal (actions : list Action) : option bool :=
  match actions with
  | [] => None
  | a :: rest =>
      match last_modal rest with
      | Some b => Some b
      | None =>
          match a with
          | OpenModal => Some true
          | CloseModal => Some false
          | ToggleSidebar => None
          end
      end
  end.

End UIStore.

(** ** components/layouts/Header.tsx and components/ui/Button.tsx

    The navigation the header renders, as a list of elements; a button
    carries its click handler. *)

Inductive Variant := primary | secondary | outline | ghost.
Inductive Size := sm | md | lg.

Inductive NavElement :=
| Span (text : string)
| Button (label : string) (variant : Variant) (size : Size) (onClick : option (M unit))
| Link (href : string) (child : NavElement).

(** [{user?.name}] renders nothing where there is no user. *)
Definition Header (state : AuthState) : list NavElement :=
  if isAuthenticated state then
    [ Span ("Welcome, " +:+ default EmptyString (name <$> user state));
      Button "Logout" outline sm (Some logout) ]
  else
    [ Link "/login" (Button "Login" ghost sm None);
      Link "/signup" (Button "Sign Up" primary sm None) ].

(** The two navigations the header shows where the state is consistent. *)
Definition welcome (u : User) : list NavElement :=
  [ Span ("Welcome, " +:+ name u); Button "Logout" outline sm (Some logout) ].

Definition guest : list NavElement :=
  [ Link "/login" (Button "Login" ghost sm None);
    Link "/signup" (Button "Sign Up" primary sm None) ].

(** A click on the button labelled [label], where the navigation has one
    with a handler. *)
Fixpoint click (label : string) (nav : list NavElement) : M unit :=
  match nav with
  | [] => mret ()
  | Button l _ _ (Some handler) :: rest =>
      if String.eqb l label then handler else click label rest
  | _ :: rest => click label rest
  end.

(** ** Runs *)

(** The store operations of a list, first to last. *)
Definition run_ops (ops : list StoreOp) (w : World) : World :=
  foldl (λ w op, exec (run_op op) w) w ops.

(** Whether the remote answers the request with status 401. *)
Definition answered_401 {D} (remote : Remote D) (config : AxiosRequestConfig) : bool :=
  match remote config with
  | Response status _ => Nat.eqb status 401
  | NoResponse _ => false
  end.

(** Between [w] and [w'] exactly one request configuration was handed
    to the transport: that of [path] and [payload] on the configured base
    URL, with the instance's [Content-Type] default among its headers and,
    as [Authorization], the token that was stored in [w], if any. *)
Definition handed_over (path : string) (payload : RequestBody) (w w' : World) : Prop :=
  ∃ r, sent w' = (sent w ++ [r])%list
       ∧ baseURL r = NEXT_PUBLIC_API_URL w
       ∧ url r = path
       ∧ body r = payload
       ∧ headers r !! "Content-Type" = Some "application/json"
       ∧ headers r !! "Authorization"
         = (t ← durableToken w; if truthy t then Some ("Bearer " +:+ t) else None).

(** ** Scenarios

    Concrete worlds and remotes: the ones of the spec's scenarios. *)

Definition alice : User :=
  {| id := "1"; email := "a@b.com"; name := "A";
     createdAt := None; updatedAt := None |}.

Definition with_queries (qs : gmap (list string) string) (w : World) : World :=
  {| window := window w; NEXT_PUBLIC_API_URL := NEXT_PUBLIC_API_URL w;
     auth := auth w; queries := qs;
     clearCalls := clearCalls w; sent := sent w |}.

(** A page just loaded in a browser with empty storage. *)
Definition page : World :=
  {| window := Some {| localStorage := ∅; navigations := [] |};
     NEXT_PUBLIC_API_URL := "https://api.example.com";
     auth := initialState; queries := ∅; clearCalls := 0; sent := [] |}.

(** The same code during server-side rendering. *)
Definition server_side : World := with_window None page.

(** The page with two cached queries. *)
Definition cached_page : World :=
  with_queries {[ ["users"] := "[]"; ["users"; "42"; "posts"] := "[]" ]} page.

(** A session with token [abc] on that page. *)
Definition signed_in : World := exec (setAuth alice "abc") cached_page.

Definition credentials : LoginCredentials :=
  {| lc_email := "a@b.com"; lc_password := "pw" |}.

Definition answers {D} (status : nat) (d : D) : Remote D := λ _, Response status d.

Definition unreachable {D} : Remote D := λ _, NoResponse "Network Error".

Definition xyz : AuthResponse := {| ar_user := alice; ar_token := "xyz" |}.

(** * Properties *)

(** ** The JSON reader inverts the writer *)

Module JSONFacts.
Import JSON.

Lemma unescape_escape_char (c : ascii) (k : string) :
  unescape (escape_char c k) = push c (unescape k).
Proof.
  destruct c as [[] [] [] [] [] [] [] []]; reflexivity.
Qed.

Lemma unescape_escape (s k : string) :
  unescape (escape s (String dquote k)) = Some (s, k).
Proof.
  induction s as [|c s IH]; [reflexivity|].
  cbn [escape]. rewrite unescape_escape_char, IH. reflexivity.
Qed.

Lemma parse_quoted_quote (s k : string) :
  parse_quoted (quote s k) = Some (s, k).
Proof. apply unescape_escape. Qed.

Lemma lit_append (p k : string) : lit p (p +:+ k) = Some k.
Proof.
  induction p as [|a p IH]; [reflexivity|].
  change (String a p +:+ k) with (String a (p +:+ k)).
  cbn [lit]. rewrite Ascii.eqb_refl. exact IH.
Qed.

Lemma lit_char (a : ascii) (k : string) : lit (String a EmptyString) (String a k) = Some k.
Proof. exact (lit_append (String a EmptyString) k). Qed.

Lemma expect_key_key (n k : string) : expect_key n (key n k) = Some k.
Proof.
  unfold expect_key, key. rewrite parse_quoted_quote. cbn [mbind option_bind].
  rewrite String.eqb_refl. apply lit_char.
Qed.

Lemma parse_nullable_nullable (o : option string) (k : string) :
  parse_nullable (nullable o k) = Some (o, k).
Proof.
  destruct o as [t|]; unfold parse_nullable, nullable.
  - replace (lit "null" (quote t k)) with (@None string) by reflexivity.
    rewrite parse_quoted_quote. reflexivity.
  - rewrite lit_append. reflexivity.
Qed.

Lemma parse_bool_write (b : bool) (k : string) :
  parse_bool (write_bool b k) = Some (b, k).
Proof. destruct b; reflexivity. Qed.

Lemma parse_optional_field_some (n t k : string) :
  parse_optional_field n (optional_field n (Some t) k) = Some (Some t, k).
Proof.
  unfold parse_optional_field, optional_field.
  rewrite lit_char. cbn [mbind option_bind].
  rewrite expect_key_key. cbn [mbind option_bind].
  rewrite parse_quoted_quote. reflexivity.
Qed.

(** An absent optional field is recognised by what follows it. *)
Lemma parse_optional_field_brace (n k : string) :
  parse_optional_field n (String "}" k) = Some (None, String "}" k).
Proof. reflexivity. Qed.

Lemma parse_createdAt_skips_updatedAt (t k : string) :
  parse_optional_field "createdAt" (optional_field "updatedAt" (Some t) k)
  = Some (None, optional_field "updatedAt" (Some t) k).
Proof. reflexivity. Qed.

Lemma optional_field_none (n k : string) : optional_field n None k = k.
Proof. reflexivity. Qed.

Create Rewrite HintDb json.
#[local] Hint Rewrite lit_char lit_append expect_key_key parse_quoted_quote
  parse_nullable_nullable parse_bool_write optional_field_none
  parse_optional_field_some parse_optional_field_brace
  parse_createdAt_skips_updatedAt : json.

(** Runs the reader over the next pieces of the written text. *)
Ltac read_back :=
  repeat (progress (autorewrite with json; cbn [mbind option_bind])).

Lemma parse_user_write (u : User) (k : string) :
  parse_user (write_user u k) = Some (u, k).
Proof.
  destruct u as [i e n [c|] [d|]]; unfold parse_user, write_user;
    cbn [id email name createdAt updatedAt]; read_back; reflexivity.
Qed.

#[local] Hint Rewrite parse_user_write : json.

Lemma parse_nullable_user_write (o : option User) (k : string) :
  parse_nullable_user (nullable_user o k) = Some (o, k).
Proof.
  destruct o as [u|]; unfold parse_nullable_user, nullable_user.
  - replace (lit "null" (write_user u k)) with (@None string) by reflexivity.
    read_back. reflexivity.
  - read_back. reflexivity.
Qed.

#[local] Hint Rewrite parse_nullable_user_write : json.

Lemma parse_doc_write (p : Persisted) (k : string) :
  parse_doc (write_doc p k) = Some (p, k).
Proof.
  destruct p as [u t b]. unfold parse_doc, write_doc.
  cbn [p_user p_token p_isAuthenticated]. read_back. reflexivity.
Qed.

Lemma parse_stringify (p : Persisted) : parse (stringify p) = Some p.
Proof. unfold parse, stringify. rewrite parse_doc_write. reflexivity. Qed.

End JSONFacts.

(** Unfolds the monad and the record plumbing of a run, leaving the map
    operations on storage as they are. *)
Ltac run :=
  cbv [exec eval mbind M_bind mret M_ret fmap M_fmap option_fmap option_map
       modify gets on_window with_window with_auth record_sent
       window auth queries clearCalls sent NEXT_PUBLIC_API_URL
       localStorage navigations fst snd].

(** ** Session state *)

Lemma auth_setAuth (u : User) (t : string) (w : World) :
  auth (exec (setAuth u t) w)
  = {| user := Some u; token := Some t; isAuthenticated := true |}.
Proof. reflexivity. Qed.

Lemma auth_logout (w : World) : auth (exec logout w) = initialState.
Proof. reflexivity. Qed.

Lemma auth_token_neq_persist_name : "auth_token" ≠ persist_name.
Proof. discriminate. Qed.

Lemma window_setAuth (u : User) (t : string) (w : World) :
  window (exec (setAuth u t) w)
  = (λ win, setItem persist_name
              (JSON.stringify {| p_user := Some u; p_token := Some t;
                                 p_isAuthenticated := true |})
              (setItem "auth_token" t win)) <$> window w.
Proof. destruct w as [[win|] ? ? ? ? ?]; reflexivity. Qed.

Lemma window_logout (w : World) :
  window (exec logout w)
  = (λ win, setItem persist_name (JSON.stringify (partialize initialState))
              (removeItem "auth_token" win)) <$> window w.
Proof. destruct w as [[win|] ? ? ? ? ?]; reflexivity. Qed.

Lemma durableToken_setAuth (u : User) (t : string) (w : World) :
  durableToken (exec (setAuth u t) w) = if browser w then Some t else None.
Proof.
  unfold durableToken, browser. rewrite window_setAuth.
  destruct (window w) as [win|]; cbn; [|reflexivity].
  unfold getItem. cbn.
  rewrite lookup_insert_ne by (symmetry; apply auth_token_neq_persist_name).
  apply lookup_insert_eq.
Qed.

Lemma durableToken_logout (w : World) : durableToken (exec logout w) = None.
Proof.
  unfold durableToken. rewrite window_logout.
  destruct (window w) as [win|]; cbn; [|reflexivity].
  unfold getItem. cbn.
  rewrite lookup_insert_ne by (symmetry; apply auth_token_neq_persist_name).
  apply lookup_delete_eq.
Qed.

(** C6: after [setAuth u t] the session state reads [u], [t] and
    [isAuthenticated = true], and in a browser durable storage holds [t]
    under the token key (outside a browser there is no storage to read). *)
Theorem setAuth_then_read (u : User) (t : string) (w : World) :
  let w' := exec (setAuth u t) w in
  user (auth w') = Some u
  ∧ token (auth w') = Some t
  ∧ isAuthenticated (auth w') = true
  ∧ durableToken w' = (if browser w then Some t else None).
Proof.
  cbv zeta. rewrite auth_setAuth, durableToken_setAuth. done.
Qed.

(** C2: from the initial all-absent state, after each operation of any
    sequence of [setAuth] and [logout] calls, [isAuthenticated] is true
    exactly when both [user] and [token] are present, and neither of the
    two is present without the other. *)
Theorem lockstep_after_every_operation (ops : list StoreOp) (w : World) :
  Forall lockstep (trace ops (with_auth initialState w)).
Proof.
  generalize (with_auth initialState w). clear w.
  induction ops as [|op ops IH]; intros w; cbn [trace]; constructor.
  - destruct op as [u t|]; cbn [run_op].
    + rewrite auth_setAuth. unfold lockstep; cbn. naive_solver.
    + rewrite auth_logout. unfold lockstep, initialState; cbn.
      split; split; [done| | |]; intros H; exfalso;
        [destruct H as [H _]| |]; exact (is_Some_None H).
  - apply IH.
Qed.

(** C7: [logout] twice ends in the same world as [logout] once (the
    in-memory fields and all of durable storage), and after [logout] a
    read of the token key finds nothing. *)
Theorem logout_idempotent (w : World) :
  exec (logout;; logout) w = exec logout w
  ∧ durableToken (exec logout w) = None.
Proof.
  split; [|apply durableToken_logout].
  destruct w as [[[ls navs]|] base st qs n reqs]; [|reflexivity].
  unfold logout, set, persist_setItem, removeItem, setItem. run.
  do 2 f_equal.
  rewrite (delete_insert_ne _ "auth_token" persist_name)
    by apply auth_token_neq_persist_name.
  rewrite delete_delete_eq. f_equal. apply insert_insert_eq.
Qed.

(** ** The gateway *)

(** The interceptor completes normally, in every world, and leaves the
    world as it is. *)
Lemma requestInterceptor_run (config : AxiosRequestConfig) (w : World) :
  requestInterceptor config w
  = (Normal (match durableToken w with
             | Some t =>
                 if truthy t
                 then set_header "Authorization" ("Bearer " +:+ t) config
                 else config
             | None => config
             end), w).
Proof.
  unfold requestInterceptor, isBrowser, localStorage_getItem, durableToken, browser.
  destruct w as [[win|] base st qs n reqs]; run; cbn; [|reflexivity].
  destruct (getItem "auth_token" win) as [t|]; [|reflexivity].
  destruct (truthy t); reflexivity.
Qed.

Lemma onRequest_run (config : AxiosRequestConfig) (w : World) :
  onRequest config w
  = (match durableToken w with
     | Some t =>
         if truthy t
         then set_header "Authorization" ("Bearer " +:+ t) config
         else config
     | None => config
     end, w).
Proof.
  unfold onRequest. cbv [mbind M_bind]. rewrite requestInterceptor_run. reflexivity.
Qed.

Lemma request_of_eq (url : string) (body : RequestBody) (w : World) :
  request_of url body w = eval (onRequest (eval (instance_config url body) w)) w.
Proof. reflexivity. Qed.

Lemma onResponseError_run {A} (error : AxiosError) (w : World) :
  @onResponseError A error w
  = (Rejected error,
     if bool_decide (response error = Some 401) && browser w
     then on_window (assign_location_href "/login")
            (on_window (removeItem "auth_token") w)
     else w).
Proof.
  unfold onResponseError, isBrowser. run.
  destruct (bool_decide (response error = Some 401) && browser w); reflexivity.
Qed.

Lemma api_post_run {D} (remote : Remote D) (url : string) (body : RequestBody) (w : World) :
  api_post remote url body w
  = match settle remote (request_of url body w) with
    | Resolved response => (Resolved response, record_sent (request_of url body w) w)
    | Rejected error => onResponseError error (record_sent (request_of url body w) w)
    end.
Proof.
  unfold api_post, request_of, dispatchRequest, instance_config.
  run. rewrite onRequest_run. cbn [fst snd].
  match goal with |- context [settle remote ?c] => destruct (settle remote c) end;
    reflexivity.
Qed.

(** A gateway call changes the world in two places at most: the request
    log and the window. *)
Lemma api_post_frame {D} (remote : Remote D) (url : string) (body : RequestBody) (w : World) :
  let w' := exec (api_post remote url body) w in
  auth w' = auth w
  ∧ queries w' = queries w
  ∧ clearCalls w' = clearCalls w
  ∧ sent w' = (sent w ++ [request_of url body w])%list.
Proof.
  cbv zeta. unfold exec. rewrite api_post_run.
  destruct (settle remote (request_of url body w)) as [r|e]; [done|].
  rewrite onResponseError_run. cbn [snd].
  destruct (bool_decide (response e = Some 401) && _); done.
Qed.

(** C8: the pre-send hook. With a token under the token key it completes
    with the request carrying [Authorization: Bearer <token>]; with none
    it completes with the request as it was, so that a call made through
    the instance goes out without an [Authorization] header. Without a
    window, where the read of [localStorage] that the hook guards would
    throw a [ReferenceError], the hook does not throw: it completes with
    the request as it was. In every world it completes normally and
    leaves the world as it is. *)
Theorem request_hook_attaches_token (config : AxiosRequestConfig) (w : World) :
  exec (requestInterceptor config) w = w
  ∧ (∀ t, durableToken w = Some t → t ≠ EmptyString →
       eval (requestInterceptor config) w
       = Normal (set_header "Authorization" ("Bearer " +:+ t) config)
       ∧ headers (eval (onRequest config) w) !! "Authorization"
         = Some ("Bearer " +:+ t))
  ∧ (durableToken w = None → eval (requestInterceptor config) w = Normal config)
  ∧ (window w = None →
       eval (localStorage_getItem "auth_token") w
       = Throw (ReferenceError "localStorage is not defined")
       ∧ eval (requestInterceptor config) w = Normal config)
  ∧ eval (requestInterceptor config) w = Normal (eval (onRequest config) w)
  ∧ exec (onRequest config) w = w
  ∧ (∀ url body,
       headers (request_of url body w) !! "Authorization"
       = (t ← durableToken w; if truthy t then Some ("Bearer " +:+ t) else None)).
Proof.
  unfold exec, eval. split_and!.
  - rewrite requestInterceptor_run. reflexivity.
  - intros t H Hne. rewrite requestInterceptor_run, onRequest_run, H.
    destruct t; [done|]. split; [reflexivity|]. cbn. apply lookup_insert_eq.
  - intros H. rewrite requestInterceptor_run, H. reflexivity.
  - intros H. split.
    + unfold localStorage_getItem, gets. cbn [fst]. rewrite H. reflexivity.
    + rewrite requestInterceptor_run. unfold durableToken. rewrite H. reflexivity.
  - rewrite requestInterceptor_run, onRequest_run. reflexivity.
  - rewrite onRequest_run. reflexivity.
  - intros url body. rewrite request_of_eq. unfold eval at 1.
    rewrite onRequest_run. cbn [fst].
    destruct (durableToken w) as [t|]; cbn; [destruct (truthy t); cbn|].
    + apply lookup_insert_eq.
    + reflexivity.
    + reflexivity.
Qed.

Lemma request_hook_attaches_token_witness :
  let config := eval (instance_config "/users" BodyNone) signed_in in
  eval (requestInterceptor config) signed_in
  = Normal (set_header "Authorization" "Bearer abc" config)
  ∧ eval (requestInterceptor config) page = Normal config
  ∧ eval (localStorage_getItem "auth_token") server_side
    = Throw (ReferenceError "localStorage is not defined")
  ∧ eval (requestInterceptor config) server_side = Normal config.
Proof.
  cbv zeta. set (config := eval (instance_config "/users" BodyNone) signed_in).
  destruct (request_hook_attaches_token config signed_in) as (_ & Hattach & _).
  destruct (request_hook_attaches_token config page) as (_ & _ & Habsent & _).
  destruct (request_hook_attaches_token config server_side) as (_ & _ & _ & Hserver & _).
  split; [|split].
  - refine (proj1 (Hattach "abc" eq_refl _)). discriminate.
  - exact (Habsent eq_refl).
  - exact (Hserver eq_refl).
Defined.

(** C1, at the spec's forced-logout scenario: a session with token [abc]
    in a browser, and a gateway call answered 401. Durable storage loses
    the token, a navigation to [/login] is issued and the caller gets the
    error as a rejection; the session state is not touched and still
    reads [isAuthenticated = true] with token [abc]. *)
Theorem forced_logout_leaves_session_state :
  let call := api_post (answers 401 ()) "/users" BodyNone in
  durableToken signed_in = Some "abc"
  ∧ durableToken (exec call signed_in) = None
  ∧ navigations <$> window (exec call signed_in) = Some ["/login"]
  ∧ eval call signed_in
    = Rejected {| response := Some 401;
                  message := "Request failed with status code 401";
                  config := request_of "/users" BodyNone signed_in |}
  ∧ isAuthenticated (auth (exec call signed_in)) = true
  ∧ token (auth (exec call signed_in)) = Some "abc".
Proof. vm_compute. split_and!; reflexivity. Qed.

Lemma settle_401 {D} (remote : Remote D) (config : AxiosRequestConfig) (d : D) :
  remote config = Response 401 d →
  settle remote config
  = Rejected {| response := Some 401;
                message := "Request failed with status code " +:+ pretty 401;
                config := config |}.
Proof. intros H. unfold settle. rewrite H. reflexivity. Qed.

Lemma window_api_post_401 {D} (remote : Remote D) url body (w : World) (win : Window) (d : D) :
  window w = Some win →
  remote (request_of url body w) = Response 401 d →
  window (exec (api_post remote url body) w)
  = Some (assign_location_href "/login" (removeItem "auth_token" win)).
Proof.
  intros Hwin Hremote. unfold exec.
  rewrite api_post_run, (settle_401 _ _ _ Hremote), onResponseError_run.
  generalize (request_of url body w). intros config.
  destruct w as [o base st qs n reqs]. cbn in Hwin. subst o. reflexivity.
Qed.

Lemma hydrate_snapshot (o : option Window) :
  hydrate o
  = match (win ← o; getItem persist_name win) ≫= JSON.parse with
    | Some persisted => merge persisted initialState
    | None => initialState
    end.
Proof. destruct o as [win|]; [|reflexivity]. reflexivity. Qed.

Lemma durableSnapshot_setAuth (u : User) (t : string) (w : World) :
  durableSnapshot (exec (setAuth u t) w)
  = if browser w
    then Some (JSON.stringify {| p_user := Some u; p_token := Some t;
                                 p_isAuthenticated := true |})
    else None.
Proof.
  unfold durableSnapshot, browser. rewrite window_setAuth.
  destruct (window w) as [win|]; [|reflexivity].
  cbn. unfold getItem. cbn. apply lookup_insert_eq.
Qed.

(** C10: a 401 handled in a browser deletes the token key from durable
    storage and nothing else. The snapshot under [persist_name] is what
    it was, so a store created afterwards restores the same state as
    before; after [setAuth u t] that is the authenticated state of [u] and
    [t], although the token key is gone. *)
Theorem forced_logout_keeps_snapshot {D} (remote : Remote D) (url : string)
    (body : RequestBody) (w : World) (win : Window) (d : D) :
  window w = Some win →
  remote (request_of url body w) = Response 401 d →
  let w' := exec (api_post remote url body) w in
  localStorage <$> window w' = Some (delete "auth_token" (localStorage win))
  ∧ durableToken w' = None
  ∧ durableSnapshot w' = durableSnapshot w
  ∧ hydrate (window w') = hydrate (window w)
  ∧ (∀ u t w0, w = exec (setAuth u t) w0 →
       hydrate (window w')
       = {| user := Some u; token := Some t; isAuthenticated := true |}).
Proof.
  intros Hwin Hremote w'.
  assert (Hw' : window w' = Some (assign_location_href "/login" (removeItem "auth_token" win)))
    by exact (window_api_post_401 remote url body w win d Hwin Hremote).
  assert (Hsnap : durableSnapshot w' = durableSnapshot w).
  { unfold durableSnapshot. rewrite Hw', Hwin. cbn. unfold getItem. cbn.
    apply lookup_delete_ne, auth_token_neq_persist_name. }
  assert (Hhyd : hydrate (window w') = hydrate (window w)).
  { rewrite !hydrate_snapshot. unfold durableSnapshot in Hsnap. rewrite Hsnap.
    reflexivity. }
  split_and!.
  - rewrite Hw'. reflexivity.
  - unfold durableToken. rewrite Hw'. cbn. apply lookup_delete_eq.
  - exact Hsnap.
  - exact Hhyd.
  - intros u t w0 ->. rewrite Hhyd, hydrate_snapshot.
    pose proof (durableSnapshot_setAuth u t w0) as Hs.
    unfold durableSnapshot in Hs. rewrite Hs.
    assert (Hb : browser w0 = true).
    { unfold browser. rewrite window_setAuth in Hwin.
      destruct (window w0); [reflexivity|discriminate]. }
    rewrite Hb. cbn [mbind option_bind]. rewrite JSONFacts.parse_stringify.
    reflexivity.
Qed.

Lemma forced_logout_keeps_snapshot_witness :
  let w' := exec (api_post (answers 401 ()) "/users" BodyNone) signed_in in
  durableToken w' = None
  ∧ durableSnapshot w' = durableSnapshot signed_in
  ∧ hydrate (window w')
    = {| user := Some alice; token := Some "abc"; isAuthenticated := true |}.
Proof.
  destruct (forced_logout_keeps_snapshot (answers 401 ()) "/users" BodyNone
              signed_in _ () eq_refl eq_refl) as (_ & Htoken & Hsnap & _ & Hrestore).
  split; [exact Htoken|]. split; [exact Hsnap|].
  exact (Hrestore alice "abc" cached_page eq_refl).
Defined.

Lemma api_post_snapshot {D} (remote : Remote D) (url : string) (body : RequestBody) (w : World) :
  durableSnapshot (exec (api_post remote url body) w) = durableSnapshot w.
Proof.
  unfold exec. rewrite api_post_run.
  destruct (settle remote (request_of url body w)) as [r|e]; [reflexivity|].
  rewrite onResponseError_run. cbn [snd].
  destruct (bool_decide (response e = Some 401) && _); [|reflexivity].
  unfold durableSnapshot. destruct w as [[win|] base st qs n reqs]; [|reflexivity].
  cbn. unfold getItem. cbn.
  apply lookup_delete_ne, auth_token_neq_persist_name.
Qed.

(** ** The auth operations *)

Lemma mutate_run {V D} (options : MutationOptions V D) (variables : V) (w : World) :
  mutate options variables w
  = match eval (mutationFn options variables) w with
    | Resolved d =>
        (Resolved d,
         exec (callback (onSuccess options) d) (exec (mutationFn options variables) w))
    | Rejected e =>
        (Rejected e,
         exec (callback (onError options) e) (exec (mutationFn options variables) w))
    end.
Proof.
  unfold mutate. run.
  destruct (mutationFn options variables w) as [[d|e] w1]; cbn [fst snd].
  - destruct (callback (onSuccess options) d w1); reflexivity.
  - destruct (callback (onError options) e w1); reflexivity.
Qed.

Lemma returnData_api_post {D} (remote : Remote D) (url : string) (body : RequestBody) (w : World) :
  eval (returnData <$> api_post remote url body) w
  = returnData (settle remote (request_of url body w))
  ∧ exec (returnData <$> api_post remote url body) w
    = exec (api_post remote url body) w.
Proof.
  unfold eval, exec. cbv [fmap M_fmap]. rewrite api_post_run.
  destruct (settle remote (request_of url body w)) as [r|e]; [done|].
  rewrite onResponseError_run. done.
Qed.

(** The world after a successful request: only the log has grown. *)
Lemma api_post_resolved {D} (remote : Remote D) (url : string) (body : RequestBody)
    (w : World) (st : nat) (d : D) :
  validateStatus st = true →
  remote (request_of url body w) = Response st d →
  settle remote (request_of url body w) = Resolved {| status := st; data := d |}
  ∧ exec (api_post remote url body) w = record_sent (request_of url body w) w.
Proof.
  intros Hok Hremote.
  assert (Hs : settle remote (request_of url body w)
               = Resolved {| status := st; data := d |}).
  { unfold settle. rewrite Hremote, Hok. reflexivity. }
  split; [exact Hs|]. unfold exec. rewrite api_post_run, Hs. reflexivity.
Qed.

(** What a successful login or signup does, for a call with mutation
    options [options] whose [mutationFn] posts [body] to [url]. *)
Lemma auth_success (remote : Remote AuthResponse) {V}
    (options : MutationOptions V AuthResponse) (variables : V)
    (url : string) (body : RequestBody) (w : World) (st : nat) (d : AuthResponse) :
  mutationFn options variables = (returnData <$> api_post remote url body) →
  onSuccess options = Some (λ data, setAuth (ar_user data) (ar_token data)) →
  validateStatus st = true →
  remote (request_of url body w) = Response st d →
  let w' := exec (mutate options variables) w in
  eval (mutate options variables) w = Resolved d
  ∧ w' = exec (setAuth (ar_user d) (ar_token d)) (record_sent (request_of url body w) w)
  ∧ auth w' = {| user := Some (ar_user d); token := Some (ar_token d);
                 isAuthenticated := true |}
  ∧ queries w' = queries w
  ∧ clearCalls w' = clearCalls w.
Proof.
  intros Hfn Hcb Hok Hremote w'. subst w'.
  destruct (api_post_resolved remote url body w st d Hok Hremote) as [Hs Hw].
  destruct (returnData_api_post remote url body w) as [He Hx].
  unfold eval, exec. rewrite mutate_run, Hfn, He, Hs, Hcb, Hx, Hw.
  cbn [returnData data fst snd callback]. done.
Qed.

(** C3, as the code has it: a successful login, and a successful signup,
    resolves with the server's answer and calls [setAuth] with the identity
    and token of that answer; the query cache is left as it was and
    [clear()] is not called. *)
Theorem login_signup_success (remote : Remote AuthResponse) (w : World)
    (st : nat) (d : AuthResponse) :
  validateStatus st = true →
  (∀ credentials,
     remote (request_of "/auth/login" (BodyLogin credentials) w) = Response st d →
     let w' := exec (mutate (useLogin remote) credentials) w in
     eval (mutate (useLogin remote) credentials) w = Resolved d
     ∧ w' = exec (setAuth (ar_user d) (ar_token d))
              (record_sent (request_of "/auth/login" (BodyLogin credentials) w) w)
     ∧ auth w' = {| user := Some (ar_user d); token := Some (ar_token d);
                    isAuthenticated := true |}
     ∧ queries w' = queries w
     ∧ clearCalls w' = clearCalls w)
  ∧ (∀ signupData,
     remote (request_of "/auth/signup" (BodySignup signupData) w) = Response st d →
     let w' := exec (mutate (useSignup remote) signupData) w in
     eval (mutate (useSignup remote) signupData) w = Resolved d
     ∧ w' = exec (setAuth (ar_user d) (ar_token d))
              (record_sent (request_of "/auth/signup" (BodySignup signupData) w) w)
     ∧ auth w' = {| user := Some (ar_user d); token := Some (ar_token d);
                    isAuthenticated := true |}
     ∧ queries w' = queries w
     ∧ clearCalls w' = clearCalls w).
Proof.
  intros Hok. split.
  - intros c Hremote. now apply (auth_success remote (useLogin remote) c _ _ w st d).
  - intros c Hremote. now apply (auth_success remote (useSignup remote) c _ _ w st d).
Qed.

Lemma login_signup_success_witness :
  let w' := exec (mutate (useLogin (answers 200 xyz)) credentials) cached_page in
  auth w' = {| user := Some alice; token := Some "xyz"; isAuthenticated := true |}
  ∧ queries w' = queries cached_page
  ∧ clearCalls w' = 0.
Proof.
  destruct (login_signup_success (answers 200 xyz) cached_page 200 xyz eq_refl)
    as [Hlogin _].
  destruct (Hlogin credentials eq_refl) as (_ & _ & Hauth & Hqueries & Hclear).
  split; [exact Hauth|]. split; [exact Hqueries|exact Hclear].
Defined.

(** C3 as stated fails: the login of the spec's end-to-end scenario, run
    with two cached queries, succeeds and leaves both in the cache. *)
Lemma login_does_not_clear_cache :
  ¬ (∀ (remote : Remote AuthResponse) credentials w st d,
       validateStatus st = true →
       remote (request_of "/auth/login" (BodyLogin credentials) w) = Response st d →
       let w' := exec (mutate (useLogin remote) credentials) w in
       auth w' = {| user := Some (ar_user d); token := Some (ar_token d);
                    isAuthenticated := true |}
       ∧ queries w' = ∅).
Proof.
  intros claim.
  destruct (claim (answers 200 xyz) credentials cached_page 200 xyz eq_refl eq_refl)
    as [_ Hcleared].
  apply (f_equal (λ qs : gmap (list string) string, qs !! ["users"])) in Hcleared.
  vm_compute in Hcleared. discriminate.
Qed.

Lemma logout_clear_run (w : World) :
  let w' := exec (logout;; queryClient_clear) w in
  auth w' = initialState
  ∧ queries w' = ∅
  ∧ clearCalls w' = S (clearCalls w)
  ∧ sent w' = sent w
  ∧ window w' = window (exec logout w).
Proof. done. Qed.

(** The logout operation is the logout request followed, however it
    settled, by [logout()] and [queryClient.clear()]. *)
Lemma mutate_logout_run (remote : Remote unit) (w : World) :
  eval (mutate (useLogout remote) ()) w
  = returnData (settle remote (request_of "/auth/logout" BodyNone w))
  ∧ exec (mutate (useLogout remote) ()) w
    = exec (logout;; queryClient_clear)
        (exec (api_post remote "/auth/logout" BodyNone) w).
Proof.
  destruct (returnData_api_post remote "/auth/logout" BodyNone w) as [He Hx].
  unfold eval, exec. rewrite mutate_run.
  change (mutationFn (useLogout remote) ())
    with (returnData <$> api_post remote "/auth/logout" BodyNone).
  rewrite He, Hx.
  destruct (returnData (settle remote (request_of "/auth/logout" BodyNone w)));
    done.
Qed.

(** C5: whatever the remote answers to the logout request, success or
    failure, the operation runs [logout()] and clears the cache: the
    session state is the all-absent one, the token key is not in durable
    storage, the snapshot (in a browser) is that of the logged-out state
    and the cache is empty. *)
Theorem logout_is_client_authoritative (remote : Remote unit) (w : World) :
  let w' := exec (mutate (useLogout remote) ()) w in
  w' = exec (logout;; queryClient_clear)
         (exec (api_post remote "/auth/logout" BodyNone) w)
  ∧ auth w' = {| user := None; token := None; isAuthenticated := false |}
  ∧ durableToken w' = None
  ∧ durableSnapshot w'
    = (if browser w then Some (JSON.stringify (partialize initialState)) else None)
  ∧ queries w' = ∅.
Proof.
  cbv zeta. destruct (mutate_logout_run remote w) as [_ ->].
  set (w1 := exec (api_post remote "/auth/logout" BodyNone) w).
  assert (Hb : browser w1 = browser w).
  { subst w1. unfold exec. rewrite api_post_run.
    destruct (settle remote _) as [r|e]; [reflexivity|].
    rewrite onResponseError_run. cbn [snd].
    destruct (bool_decide (response e = Some 401) && _); [|reflexivity].
    destruct w as [[win|] ? ? ? ? ?]; reflexivity. }
  destruct (logout_clear_run w1) as (Hauth & Hq & _ & _ & Hwin).
  split_and!; [reflexivity|exact Hauth| | |exact Hq].
  - unfold durableToken. rewrite Hwin. apply durableToken_logout.
  - unfold durableSnapshot. rewrite Hwin, window_logout, <- Hb. unfold browser.
    destruct (window w1) as [win|]; [|reflexivity].
    cbn. unfold getItem. cbn. apply lookup_insert_eq.
Qed.

(** C4, as the code has it: every run of the logout operation, whether
    its request succeeds or fails, calls [clear()] exactly once and leaves
    the cache empty; a gateway call, 401 or not, never calls [clear()] and
    leaves the cache as it was. *)
Theorem cache_clear_calls :
  (∀ (remote : Remote unit) (w : World),
     let w' := exec (mutate (useLogout remote) ()) w in
     clearCalls w' = S (clearCalls w) ∧ queries w' = ∅)
  ∧ (∀ D (remote : Remote D) (url : string) (body : RequestBody) (w : World),
     let w' := exec (api_post remote url body) w in
     clearCalls w' = clearCalls w ∧ queries w' = queries w).
Proof.
  split.
  - intros remote w. cbv zeta. destruct (mutate_logout_run remote w) as [_ ->].
    destruct (logout_clear_run (exec (api_post remote "/auth/logout" BodyNone) w))
      as (_ & Hq & Hc & _).
    destruct (api_post_frame remote "/auth/logout" BodyNone w) as (_ & _ & Hc' & _).
    rewrite Hc, Hc'. split; [reflexivity|exact Hq].
  - intros D remote url body w.
    destruct (api_post_frame remote url body w) as (_ & Hq & Hc & _).
    split; [exact Hc|exact Hq].
Qed.

(** C4 as stated fails: the 401 of the forced-logout scenario is handled
    by the gateway in a browser, and [clear()] has not been called once. *)
Lemma forced_logout_does_not_clear_cache :
  ¬ ((∀ (remote : Remote unit) (w : World) (st : nat),
        validateStatus st = true →
        remote (request_of "/auth/logout" BodyNone w) = Response st () →
        let w' := exec (mutate (useLogout remote) ()) w in
        clearCalls w' = S (clearCalls w) ∧ queries w' = ∅)
     ∧ (∀ D (remote : Remote D) (url : string) (body : RequestBody) (w : World) (d : D),
        browser w = true →
        remote (request_of url body w) = Response 401 d →
        let w' := exec (api_post remote url body) w in
        clearCalls w' = S (clearCalls w) ∧ queries w' = ∅)).
Proof.
  intros [_ claim].
  destruct (claim unit (answers 401 ()) "/users" BodyNone signed_in () eq_refl eq_refl)
    as [Hcount _].
  vm_compute in Hcount. discriminate.
Qed.

(** What a failed login or signup does, for mutation options without an
    [onError] callback whose [mutationFn] posts [body] to [url]. *)
Lemma auth_failure (remote : Remote AuthResponse) {V}
    (options : MutationOptions V AuthResponse) (variables : V)
    (url : string) (body : RequestBody) (w : World) (e : AxiosError) :
  mutationFn options variables = (returnData <$> api_post remote url body) →
  onError options = None →
  settle remote (request_of url body w) = Rejected e →
  let w' := exec (mutate options variables) w in
  eval (mutate options variables) w = Rejected e
  ∧ auth w' = auth w
  ∧ durableSnapshot w' = durableSnapshot w
  ∧ sent w' = (sent w ++ [request_of url body w])%list.
Proof.
  intros Hfn Hcb Hs w'. subst w'.
  destruct (returnData_api_post remote url body w) as [He Hx].
  destruct (api_post_frame remote url body w) as (Hauth & _ & _ & Hsent).
  unfold eval, exec. rewrite mutate_run, Hfn, He, Hs, Hcb, Hx.
  cbn [returnData fst snd callback]. unfold exec in *.
  split_and!; [reflexivity|exact Hauth| |exact Hsent].
  apply api_post_snapshot.
Qed.

(** C9: when the login or signup request fails with error [e], a network
    failure or a response outside 2xx, the caller gets exactly [e] as a
    rejection, the session state and its durable snapshot are what they
    were, and one request has been sent: nothing is retried. *)
Theorem failed_login_signup (remote : Remote AuthResponse) (w : World) (e : AxiosError) :
  (∀ credentials,
     settle remote (request_of "/auth/login" (BodyLogin credentials) w) = Rejected e →
     let w' := exec (mutate (useLogin remote) credentials) w in
     eval (mutate (useLogin remote) credentials) w = Rejected e
     ∧ auth w' = auth w
     ∧ durableSnapshot w' = durableSnapshot w
     ∧ sent w' = (sent w ++ [request_of "/auth/login" (BodyLogin credentials) w])%list)
  ∧ (∀ signupData,
     settle remote (request_of "/auth/signup" (BodySignup signupData) w) = Rejected e →
     let w' := exec (mutate (useSignup remote) signupData) w in
     eval (mutate (useSignup remote) signupData) w = Rejected e
     ∧ auth w' = auth w
     ∧ durableSnapshot w' = durableSnapshot w
     ∧ sent w' = (sent w ++ [request_of "/auth/signup" (BodySignup signupData) w])%list).
Proof.
  split.
  - intros c Hs. now apply (auth_failure remote (useLogin remote) c _ _ w e).
  - intros c Hs. now apply (auth_failure remote (useSignup remote) c _ _ w e).
Qed.

Lemma failed_login_signup_witness :
  let w' := exec (mutate (useLogin unreachable) credentials) signed_in in
  eval (mutate (useLogin unreachable) credentials) signed_in
  = Rejected {| response := None; message := "Network Error";
                config := request_of "/auth/login" (BodyLogin credentials) signed_in |}
  ∧ auth w' = auth signed_in
  ∧ length (sent w') = 1.
Proof.
  destruct (failed_login_signup unreachable signed_in
              {| response := None; message := "Network Error";
                 config := request_of "/auth/login" (BodyLogin credentials) signed_in |})
    as [Hlogin _].
  destruct (Hlogin credentials eq_refl) as (Hresult & Hauth & _ & Hsent).
  split; [exact Hresult|]. split; [exact Hauth|].
  exact (f_equal length Hsent).
Defined.

(** * Further properties *)

(** ** The session store *)

(** Equality of two storage maps, key by key. *)
Ltac storage_eq :=
  apply map_eq; intros ?;
  repeat (rewrite lookup_insert || rewrite lookup_delete);
  repeat case_decide; congruence.

Lemma world_eq (w1 w2 : World) :
  window w1 = window w2 →
  NEXT_PUBLIC_API_URL w1 = NEXT_PUBLIC_API_URL w2 →
  auth w1 = auth w2 →
  queries w1 = queries w2 →
  clearCalls w1 = clearCalls w2 →
  sent w1 = sent w2 →
  w1 = w2.
Proof. destruct w1, w2; cbn; congruence. Qed.

Lemma window_eq (win1 win2 : Window) :
  localStorage win1 = localStorage win2 →
  navigations win1 = navigations win2 →
  win1 = win2.
Proof. destruct win1, win2; cbn; congruence. Qed.

Lemma window_run_op (op : StoreOp) (w : World) :
  window (exec (run_op op) w)
  = (λ win,
       match op with
       | OpSetAuth u t =>
           setItem persist_name
             (JSON.stringify {| p_user := Some u; p_token := Some t;
                                p_isAuthenticated := true |})
             (setItem "auth_token" t win)
       | OpLogout =>
           setItem persist_name (JSON.stringify (partialize initialState))
             (removeItem "auth_token" win)
       end) <$> window w.
Proof. destruct op; [apply window_setAuth|apply window_logout]. Qed.

Lemma run_op_frame (op : StoreOp) (w : World) :
  NEXT_PUBLIC_API_URL (exec (run_op op) w) = NEXT_PUBLIC_API_URL w
  ∧ queries (exec (run_op op) w) = queries w
  ∧ clearCalls (exec (run_op op) w) = clearCalls w
  ∧ sent (exec (run_op op) w) = sent w.
Proof. destruct op; done. Qed.

Lemma auth_run_op (op : StoreOp) (w : World) :
  auth (exec (run_op op) w)
  = match op with
    | OpSetAuth u t => {| user := Some u; token := Some t; isAuthenticated := true |}
    | OpLogout => initialState
    end.
Proof. destruct op; reflexivity. Qed.

Lemma second_operation_wins (op1 op2 : StoreOp) (w : World) :
  exec (run_op op2) (exec (run_op op1) w) = exec (run_op op2) w.
Proof.
  destruct (run_op_frame op2 (exec (run_op op1) w)) as (Hb & Hq & Hc & Hs).
  destruct (run_op_frame op2 w) as (Hb' & Hq' & Hc' & Hs').
  destruct (run_op_frame op1 w) as (Hb1 & Hq1 & Hc1 & Hs1).
  apply world_eq; [|congruence|by rewrite !auth_run_op|congruence..].
  rewrite !window_run_op. destruct (window w) as [[ls navs]|]; [|reflexivity].
  cbn. f_equal. apply window_eq; [|destruct op1, op2; reflexivity].
  pose proof auth_token_neq_persist_name.
  destruct op1, op2; cbn; storage_eq.
Qed.

(** X1: the last store operation decides the whole world. After any
    sequence of [setAuth] and [logout] calls the session state, every key
    of durable storage and everything else are what the last call alone
    would have left: nothing of an earlier session survives. *)
Theorem last_operation_wins (ops : list StoreOp) (op : StoreOp) (w : World) :
  run_ops (ops ++ [op]) w = exec (run_op op) w.
Proof.
  revert w. induction ops as [|o ops IH]; intros w; [reflexivity|].
  change (run_ops ((o :: ops) ++ [op]) w)
    with (run_ops (ops ++ [op]) (exec (run_op o) w)).
  rewrite IH. apply second_operation_wins.
Qed.

(** X2: a store operation writes two keys of durable storage and nothing
    else: every other key reads as before, no navigation is issued, no
    request is sent and the query cache is not touched. *)
Theorem store_operation_frame (op : StoreOp) (w : World) (k : string) :
  k ≠ "auth_token" →
  k ≠ persist_name →
  let w' := exec (run_op op) w in
  (win ← window w'; getItem k win) = (win ← window w; getItem k win)
  ∧ navigations <$> window w' = navigations <$> window w
  ∧ queries w' = queries w
  ∧ clearCalls w' = clearCalls w
  ∧ sent w' = sent w.
Proof.
  intros Htok Hsnap w'. subst w'.
  destruct (run_op_frame op w) as (_ & Hq & Hc & Hs).
  split_and!; [| |exact Hq|exact Hc|exact Hs]; rewrite window_run_op.
  - destruct (window w) as [win|]; [|reflexivity].
    cbn. unfold getItem. destruct op; cbn.
    + by rewrite !lookup_insert_ne.
    + by rewrite lookup_insert_ne, lookup_delete_ne.
  - destruct (window w) as [win|]; [|reflexivity]. destruct op; reflexivity.
Qed.

Lemma store_operation_frame_witness :
  let w := on_window (setItem "theme" "dark") signed_in in
  (win ← window (exec logout w); getItem "theme" win) = Some "dark".
Proof.
  cbv zeta.
  destruct (store_operation_frame OpLogout
              (on_window (setItem "theme" "dark") signed_in) "theme")
    as [Hkey _]; [discriminate|discriminate|].
  exact Hkey.
Defined.

(** X3: durable storage mirrors the session state after every store
    operation. In a browser the token key holds the state's token (and is
    absent when the state has none), the snapshot is the text of the
    state, and a store created from that storage, as after a reload,
    starts in the same state. Without a window nothing is stored. *)
Theorem durable_storage_mirrors_state (op : StoreOp) (w : World) :
  let w' := exec (run_op op) w in
  durableToken w' = (if browser w then token (auth w') else None)
  ∧ durableSnapshot w'
    = (if browser w then Some (JSON.stringify (partialize (auth w'))) else None)
  ∧ hydrate (window w') = (if browser w then auth w' else initialState).
Proof.
  cbv zeta.
  assert (Hsnap : durableSnapshot (exec (run_op op) w)
    = (if browser w then Some (JSON.stringify (partialize (auth (exec (run_op op) w))))
       else None)).
  { unfold durableSnapshot, browser. rewrite window_run_op, auth_run_op.
    destruct (window w) as [win|]; [|reflexivity].
    cbn. unfold getItem. destruct op; cbn; apply lookup_insert_eq. }
  split_and!; [|exact Hsnap|].
  - destruct op as [u t|]; cbn [run_op].
    + rewrite durableToken_setAuth. reflexivity.
    + rewrite durableToken_logout. destruct (browser w); reflexivity.
  - rewrite hydrate_snapshot. unfold durableSnapshot in Hsnap. rewrite Hsnap.
    destruct (browser w); [|reflexivity].
    cbn [mbind option_bind]. rewrite JSONFacts.parse_stringify.
    destruct (auth (exec (run_op op) w)); reflexivity.
Qed.

(** ** The gateway *)

(** X4: the pre-send hook touches the [Authorization] header and nothing
    else: base URL, path, body and every other header of the request are
    kept, and running the hook on its own result changes nothing. *)
Theorem request_hook_frame (config : AxiosRequestConfig) (w : World) :
  let config' := eval (onRequest config) w in
  baseURL config' = baseURL config
  ∧ url config' = url config
  ∧ body config' = body config
  ∧ (∀ k, k ≠ "Authorization" → headers config' !! k = headers config !! k)
  ∧ eval (onRequest config') w = config'.
Proof.
  cbv zeta. unfold eval. rewrite !onRequest_run. cbn [fst].
  destruct (durableToken w) as [t|]; [|done].
  destruct (truthy t); [|done].
  split_and!; try reflexivity.
  - intros k Hk. cbn. by rewrite lookup_insert_ne.
  - unfold set_header. cbn. f_equal. apply insert_insert_eq.
Qed.

Lemma request_hook_frame_witness :
  let config := eval (instance_config "/users" BodyNone) signed_in in
  headers (eval (onRequest config) signed_in) !! "Content-Type"
  = Some "application/json".
Proof.
  cbv zeta.
  destruct (request_hook_frame (eval (instance_config "/users" BodyNone) signed_in)
              signed_in) as (_ & _ & _ & Hother & _).
  rewrite (Hother "Content-Type"); [reflexivity|discriminate].
Defined.

Lemma request_of_fields (path : string) (payload : RequestBody) (w : World) :
  baseURL (request_of path payload w) = NEXT_PUBLIC_API_URL w
  ∧ url (request_of path payload w) = path
  ∧ body (request_of path payload w) = payload
  ∧ headers (request_of path payload w) !! "Content-Type" = Some "application/json"
  ∧ headers (request_of path payload w) !! "Authorization"
    = (t ← durableToken w; if truthy t then Some ("Bearer " +:+ t) else None).
Proof.
  assert (Hrun : request_of path payload w
    = match durableToken w with
      | Some t =>
          if truthy t
          then set_header "Authorization" ("Bearer " +:+ t)
                 (eval (instance_config path payload) w)
          else eval (instance_config path payload) w
      | None => eval (instance_config path payload) w
      end).
  { rewrite request_of_eq. unfold eval at 1. rewrite onRequest_run. reflexivity. }
  rewrite Hrun.
  destruct (durableToken w) as [t|]; cbn [mbind option_bind];
    [destruct (truthy t)|]; cbn; split_and!; reflexivity || apply lookup_insert_eq.
Qed.

Lemma settle_answered_401 {D} (remote : Remote D) (config : AxiosRequestConfig) :
  match settle remote config with
  | Resolved _ => answered_401 remote config = false
  | Rejected e =>
      bool_decide (response e = Some 401) = answered_401 remote config
  end.
Proof.
  unfold settle, answered_401. destruct (remote config) as [st d|msg]; [|reflexivity].
  destruct (validateStatus st) eqn:Hv.
  - destruct (Nat.eqb_spec st 401) as [->|]; [discriminate|reflexivity].
  - cbn. destruct (Nat.eqb_spec st 401) as [->|Hne].
    + reflexivity.
    + apply bool_decide_eq_false_2. congruence.
Qed.

Lemma window_api_post {D} (remote : Remote D) (path : string)
    (payload : RequestBody) (w : World) :
  window (exec (api_post remote path payload) w)
  = (if answered_401 remote (request_of path payload w)
     then (λ win, assign_location_href "/login" (removeItem "auth_token" win))
            <$> window w
     else window w).
Proof.
  unfold exec. rewrite api_post_run.
  pose proof (settle_answered_401 remote (request_of path payload w)) as H401.
  destruct (settle remote (request_of path payload w)) as [r|e].
  - rewrite H401. done.
  - rewrite onResponseError_run, <- H401. cbn [snd].
    destruct (bool_decide (response e = Some 401)); [|reflexivity].
    destruct w as [[win|] ? ? ? ? ?]; reflexivity.
Qed.

(** X5: what a gateway call does to the page. The caller gets the outcome
    the transport settled on, whether a response or an error: no
    interceptor alters or swallows it. Storage and location are touched
    only when the answer is 401, and then by one removal of the token key
    and one navigation to [/login]; on any other answer, and without a
    window, they are what they were. *)
Theorem gateway_call_effects {D} (remote : Remote D) (path : string)
    (payload : RequestBody) (w : World) :
  let w' := exec (api_post remote path payload) w in
  eval (api_post remote path payload) w = settle remote (request_of path payload w)
  ∧ window w'
    = (if answered_401 remote (request_of path payload w)
       then (λ win, assign_location_href "/login" (removeItem "auth_token" win))
              <$> window w
       else window w).
Proof.
  cbv zeta. split; [|apply window_api_post].
  unfold eval. rewrite api_post_run.
  destruct (settle remote (request_of path payload w)) as [r|e]; [reflexivity|].
  rewrite onResponseError_run. reflexivity.
Qed.



(** ** The auth operations *)

Lemma mutate_sent {V D} (remote : Remote D) (options : MutationOptions V D)
    (variables : V) (path : string) (payload : RequestBody) (w : World) :
  mutationFn options variables = (returnData <$> api_post remote path payload) →
  (∀ d w1, sent (exec (callback (onSuccess options) d) w1) = sent w1) →
  (∀ e w1, sent (exec (callback (onError options) e) w1) = sent w1) →
  handed_over path payload w (exec (mutate options variables) w).
Proof.
  intros Hfn Hok Herr.
  exists (request_of path payload w).
  destruct (request_of_fields path payload w) as (Hb & Hu & Hp & Hc & Ha).
  split_and!; try done.
  destruct (returnData_api_post remote path payload w) as [_ Hx].
  destruct (api_post_frame remote path payload w) as (_ & _ & _ & Hsent).
  unfold exec at 1. rewrite mutate_run, Hfn, Hx.
  destruct (eval _ w) as [d|e]; cbn [snd]; [rewrite Hok|rewrite Herr]; exact Hsent.
Qed.

(** X7: every auth operation hands exactly one request configuration to
    the transport, however it settles: its own path and payload (none for
    logout), the configured base URL, the instance's [Content-Type]
    default and, as [Authorization], the token stored before the
    operation. For logout that is the token of the session being closed:
    the request is handed over before the local state is cleared. *)
Theorem one_request_per_operation (remote : Remote AuthResponse)
    (remote' : Remote unit) (w : World) :
  (∀ credentials,
     handed_over "/auth/login" (BodyLogin credentials) w
       (exec (mutate (useLogin remote) credentials) w))
  ∧ (∀ signupData,
     handed_over "/auth/signup" (BodySignup signupData) w
       (exec (mutate (useSignup remote) signupData) w))
  ∧ handed_over "/auth/logout" BodyNone w (exec (mutate (useLogout remote') ()) w).
Proof.
  split_and!; [intros c|intros c|].
  - apply (mutate_sent remote (useLogin remote) c); done.
  - apply (mutate_sent remote (useSignup remote) c); done.
  - apply (mutate_sent remote' (useLogout remote') ()); done.
Qed.





(** X10: the logout operation does not hide a failed request. The caller
    gets the request's error as a rejection, or a resolution when the
    request succeeded, and in both cases the session state has been
    cleared by then. *)
Theorem logout_reports_request_outcome (remote : Remote unit) (w : World) :
  let result := eval (mutate (useLogout remote) ()) w in
  (∀ e, settle remote (request_of "/auth/logout" BodyNone w) = Rejected e →
        result = Rejected e)
  ∧ (∀ r, settle remote (request_of "/auth/logout" BodyNone w) = Resolved r →
          result = Resolved ())
  ∧ auth (exec (mutate (useLogout remote) ()) w) = initialState.
Proof.
  cbv zeta. destruct (mutate_logout_run remote w) as [-> ->].
  split_and!.
  - intros e ->. reflexivity.
  - intros [st []] ->. reflexivity.
  - reflexivity.
Qed.

Lemma logout_reports_request_outcome_witness :
  eval (mutate (useLogout unreachable) ()) signed_in
  = Rejected {| response := None; message := "Network Error";
                config := request_of "/auth/logout" BodyNone signed_in |}
  ∧ eval (mutate (useLogout (answers 204 ())) ()) signed_in = Resolved ().
Proof.
  destruct (logout_reports_request_outcome unreachable signed_in) as (Hfail & _ & _).
  destruct (logout_reports_request_outcome (answers 204 ()) signed_in) as (_ & Hok & _).
  split; [exact (Hfail _ eq_refl)|exact (Hok _ eq_refl)].
Defined.

(** ** The UI store *)

Lemma ui_run_cons (a : UIStore.Action) (actions : list UIStore.Action)
    (s : UIStore.UIState) :
  UIStore.run (a :: actions) s = UIStore.run actions (UIStore.act a s).
Proof. reflexivity. Qed.

(** X11: where a run of UI actions ends. The sidebar is open exactly when
    it was open at the start and has been toggled an even number of
    times, or was closed and has been toggled an odd number of times; the
    modal is as the last [openModal] or [closeModal] left it, or as it was
    when there was neither. Sidebar and modal never affect each other. *)
Theorem ui_run_result (actions : list UIStore.Action) (s : UIStore.UIState) :
  UIStore.isSidebarOpen (UIStore.run actions s)
  = xorb (UIStore.isSidebarOpen s) (Nat.odd (UIStore.toggles actions))
  ∧ UIStore.isModalOpen (UIStore.run actions s)
    = default (UIStore.isModalOpen s) (UIStore.last_modal actions).
Proof.
  revert s. induction actions as [|a actions IH]; intros s.
  - cbn. by rewrite xorb_false_r.
  - rewrite ui_run_cons. destruct (IH (UIStore.act a s)) as [-> ->].
    split.
    + destruct a; cbn [UIStore.toggles UIStore.act]; try reflexivity.
      rewrite Nat.odd_succ, <- Nat.negb_odd. cbn.
      by destruct (UIStore.isSidebarOpen s), (Nat.odd _).
    + cbn [UIStore.last_modal].
      destruct (UIStore.last_modal actions); [reflexivity|].
      destruct a; reflexivity.
Qed.

(** ** The header *)

Lemma auth_run_ops (ops : list StoreOp) (w : World) :
  auth (run_ops ops (with_auth initialState w)) = initialState
  ∨ ∃ u t, auth (run_ops ops (with_auth initialState w))
           = {| user := Some u; token := Some t; isAuthenticated := true |}.
Proof.
  induction ops as [|op ops _] using rev_ind; [left; reflexivity|].
  unfold run_ops. rewrite foldl_snoc, auth_run_op.
  destruct op as [u t|]; [right; eauto|left; reflexivity].
Qed.

(** X12: in every state the store reaches from its initial state by
    [setAuth] calls with a user record and [logout] calls, the header is
    decided by the stored user: with a user [u] it shows the text
    [Welcome, ] followed by [u]'s name, whatever string that is, and the
    Logout button; with none it shows the Login and Sign Up links. *)
Theorem header_follows_session (ops : list StoreOp) (w : World) :
  let st := auth (run_ops ops (with_auth initialState w)) in
  Header st = match user st with
              | Some u => welcome u
              | None => guest
              end.
Proof.
  cbv zeta. destruct (auth_run_ops ops w) as [->|(u & t & ->)]; reflexivity.
Qed.

(** X13: the header's Logout button runs the store's [logout] and nothing
    more: the session state and the token key are cleared and the header
    turns to Login and Sign Up, but no request is sent to the server and
    the query cache keeps its entries, unlike the logout operation of
    [useLogout]. *)
Theorem header_logout_button (w : World) :
  isAuthenticated (auth w) = true →
  let w' := exec (click "Logout" (Header (auth w))) w in
  w' = exec logout w
  ∧ Header (auth w') = guest
  ∧ durableToken w' = None
  ∧ sent w' = sent w
  ∧ queries w' = queries w
  ∧ clearCalls w' = clearCalls w.
Proof.
  intros Hauth.
  assert (Hclick : click "Logout" (Header (auth w)) = logout).
  { unfold Header. rewrite Hauth. reflexivity. }
  cbv zeta. rewrite Hclick.
  split_and!; try reflexivity. apply durableToken_logout.
Qed.

Lemma header_logout_button_witness :
  let w' := exec (click "Logout" (Header (auth signed_in))) signed_in in
  Header (auth w') = guest
  ∧ sent w' = []
  ∧ queries w' = queries signed_in.
Proof.
  destruct (header_logout_button signed_in eq_refl)
    as (_ & Hheader & _ & Hsent & Hqueries & _).
  split; [exact Hheader|]. split; [exact Hsent|exact Hqueries].
Defined.

(** X14: a forced logout does not reach the header. After [setAuth u t]
    and a gateway call answered 401 in a browser, the token key is gone,
    yet the header still greets [u] and offers Logout, on the page as it
    is and on the page as a reload restores it from durable storage. *)
Theorem header_after_forced_logout {D} (remote : Remote D) (path : string)
    (payload : RequestBody) (u : User) (t : string) (w0 : World) :
  browser w0 = true →
  answered_401 remote (request_of path payload (exec (setAuth u t) w0)) = true →
  let w' := exec (api_post remote path payload) (exec (setAuth u t) w0) in
  durableToken w' = None
  ∧ Header (auth w') = welcome u
  ∧ Header (hydrate (window w')) = welcome u.
Proof.
  intros Hb H401 w'. subst w'.
  set (w := exec (setAuth u t) w0) in *.
  destruct (api_post_frame remote path payload w) as (Hauth & _).
  split_and!.
  - unfold durableToken. rewrite window_api_post, H401.
    destruct (window w) as [win|]; [|reflexivity].
    cbn. unfold getItem. cbn. apply lookup_delete_eq.
  - rewrite Hauth. reflexivity.
  - rewrite hydrate_snapshot.
    change (win ← window (exec (api_post remote path payload) w);
            getItem persist_name win)
      with (durableSnapshot (exec (api_post remote path payload) w)).
    rewrite api_post_snapshot. subst w. rewrite durableSnapshot_setAuth, Hb.
    cbn [mbind option_bind]. rewrite JSONFacts.parse_stringify. reflexivity.
Qed.

Lemma header_after_forced_logout_witness :
  let w' := exec (api_post (answers 401 ()) "/users" BodyNone) signed_in in
  durableToken w' = None
  ∧ Header (hydrate (window w')) = welcome alice.
Proof.
  destruct (header_after_forced_logout (answers 401 ()) "/users" BodyNone
              alice "abc" cached_page eq_refl eq_refl) as (Htoken & _ & Hreload).
  split; [exact Htoken|exact Hreload].
Defined.
